(** * Shallow embedding of the typed IPC layer of ipc-channel (src/ipc.rs)

    The platform transport (OsIpcSender, OsIpcReceiver, OsIpcOneShotServer)
    is external: a raw sender is modelled by the endpoint it reaches, and the
    results of the transport calls are passed in as arguments.  The serde json
    codec is modelled at the level of its token stream, type-directed on the
    Rust type [T] being decoded.  The two thread-local vectors
    OS_IPC_SENDERS_FOR_DESERIALIZATION and OS_IPC_SENDERS_FOR_SERIALIZATION
    are threaded explicitly as a record [tls]. *)

From Stdlib Require Import List String NArith Lia.
Import ListNotations.

Module Ipc.

(** ** Transport handles *)

(** A raw sender handle; cloning it (fd duplication) yields a handle on the
    same endpoint. *)
Record OsIpcSender := mkOsIpcSender { endpoint : nat }.

Definition os_clone (s : OsIpcSender) : OsIpcSender :=
  mkOsIpcSender (endpoint s).

Record OsIpcReceiver := mkOsIpcReceiver { rx_endpoint : nat }.

Record OsIpcOneShotServer := mkOsIpcOneShotServer { server_id : nat }.

(** ** Rust call outcomes: [Ok], [Err(())], or a panic *)

Inductive outcome (A : Type) : Type :=
| Ok (a : A)
| Err
| Panic.
Arguments Ok {A} a.
Arguments Err {A}.
Arguments Panic {A}.

(** ** Thread-local state *)

Record tls := mkTls {
  senders_for_deserialization : list OsIpcSender;
  senders_for_serialization : list OsIpcSender
}.

Definition set_de (st : tls) (v : list OsIpcSender) : tls :=
  mkTls v (senders_for_serialization st).

Definition set_ser (st : tls) (v : list OsIpcSender) : tls :=
  mkTls (senders_for_deserialization st) v.

(** ** The json wire payload, as a token stream *)

Inductive token : Type :=
| TNum (n : N)
| TStr (s : string)
| TSeqBegin
| TSeqEnd.

Definition bytes := list token.

(** ** Payload types and values *)

(** The Rust type [T] of a message: u64 / usize, String, Vec<T>, (A, B) and
    IpcSender<U>. *)
Inductive ty : Type :=
| TyU64
| TyString
| TyVec (t : ty)
| TyPair (a b : ty)
| TyIpcSender.

Scheme All for list.

(** A message value.  Serializing into the in-memory [Vec<u8>] of [send]
    cannot fail under serde 0.4: a [Serialize] impl has no way to build the
    serializer's error and writes to a [Vec] never fail. *)
Inductive value : Type :=
| VU64 (n : N)
| VString (s : string)
| VVec (l : list value)
| VPair (a b : value)
| VIpcSender (s : OsIpcSender).

Definition u64_limit : N := (2 ^ 64)%N.

(** ** Serialization *)

(** [impl Serialize for IpcSender<T>]: push a clone of the raw handle on the
    serialization thread-local, write the index it received. *)
Definition ipc_sender_serialize (self : OsIpcSender) (ctx : list OsIpcSender)
  : bytes * list OsIpcSender :=
  let index := List.length ctx in
  let ctx' := ctx ++ [os_clone self] in
  ([TNum (N.of_nat index)], ctx').

(** [Serialize::serialize] into serde json: the [option] mirrors its
    [Result<(), S::Error>]; over the values above it is never [None]. *)
Fixpoint serialize (v : value) (ctx : list OsIpcSender)
  : option bytes * list OsIpcSender :=
  match v with
  | VU64 n => (Some [TNum n], ctx)
  | VString s => (Some [TStr s], ctx)
  | VIpcSender s =>
      let (b, ctx') := ipc_sender_serialize s ctx in (Some b, ctx')
  | VPair a b =>
      match serialize a ctx with
      | (Some ba, c1) =>
          match serialize b c1 with
          | (Some bb, c2) => (Some (TSeqBegin :: ba ++ bb ++ [TSeqEnd]), c2)
          | (None, c2) => (None, c2)
          end
      | (None, c1) => (None, c1)
      end
  | VVec l =>
      let fix elems (l : list value) (ctx : list OsIpcSender)
        : option bytes * list OsIpcSender :=
        match l with
        | [] => (Some [], ctx)
        | x :: xs =>
            match serialize x ctx with
            | (Some bx, c1) =>
                match elems xs c1 with
                | (Some bxs, c2) => (Some (bx ++ bxs), c2)
                | (None, c2) => (None, c2)
                end
            | (None, c1) => (None, c1)
            end
        end in
      match elems l ctx with
      | (Some b, c) => (Some (TSeqBegin :: b ++ [TSeqEnd]), c)
      | (None, c) => (None, c)
      end
  end.

(** ** Deserialization *)

(** Result of a decoding step: a value and the remaining tokens, a decode
    error, or a panic. *)
Inductive dres (A : Type) : Type :=
| DOk (a : A) (rest : bytes)
| DErr
| DPanic.
Arguments DOk {A} a rest.
Arguments DErr {A}.
Arguments DPanic {A}.

Definition dbind {A B : Type} (m : dres A * list OsIpcSender)
  (k : A -> bytes -> list OsIpcSender -> dres B * list OsIpcSender)
  : dres B * list OsIpcSender :=
  match m with
  | (DOk a r, c) => k a r c
  | (DErr, c) => (DErr, c)
  | (DPanic, c) => (DPanic, c)
  end.

(** u64 and usize (64-bit target) read a json number that fits. *)
Definition u64_deserialize (toks : bytes) : option (N * bytes) :=
  match toks with
  | TNum n :: r => if (n <? u64_limit)%N then Some (n, r) else None
  | _ => None
  end.

(** [impl Deserialize for IpcSender<T>]: read the index, then
    [os_ipc_senders_for_deserialization.borrow_mut()[index].clone()];
    Vec indexing panics out of range. *)
Definition ipc_sender_deserialize (toks : bytes) (ctx : list OsIpcSender)
  : dres value * list OsIpcSender :=
  match u64_deserialize toks with
  | None => (DErr, ctx)
  | Some (index, r) =>
      match nth_error ctx (N.to_nat index) with
      | Some s => (DOk (VIpcSender (os_clone s)) r, ctx)
      | None => (DPanic, ctx)
      end
  end.

Fixpoint deserialize (t : ty) (toks : bytes) (ctx : list OsIpcSender)
  : dres value * list OsIpcSender :=
  match t with
  | TyU64 =>
      match u64_deserialize toks with
      | Some (n, r) => (DOk (VU64 n) r, ctx)
      | None => (DErr, ctx)
      end
  | TyString =>
      match toks with
      | TStr s :: r => (DOk (VString s) r, ctx)
      | _ => (DErr, ctx)
      end
  | TyIpcSender => ipc_sender_deserialize toks ctx
  | TyPair a b =>
      match toks with
      | TSeqBegin :: r =>
          dbind (deserialize a r ctx) (fun va r1 c1 =>
          dbind (deserialize b r1 c1) (fun vb r2 c2 =>
          match r2 with
          | TSeqEnd :: r3 => (DOk (VPair va vb) r3, c2)
          | _ => (DErr, c2)
          end))
      | _ => (DErr, ctx)
      end
  | TyVec t' =>
      let fix elems (fuel : nat) (toks : bytes) (ctx : list OsIpcSender)
        : dres (list value) * list OsIpcSender :=
        match fuel with
        | O => (DErr, ctx)
        | S f =>
            match toks with
            | TSeqEnd :: r => (DOk [] r, ctx)
            | _ =>
                dbind (deserialize t' toks ctx) (fun x r c =>
                dbind (elems f r c) (fun xs r' c' => (DOk (x :: xs) r', c')))
            end
        end in
      match toks with
      | TSeqBegin :: r =>
          dbind (elems (List.length r) r ctx) (fun xs r' c' => (DOk (VVec xs) r', c'))
      | _ => (DErr, ctx)
      end
  end.

(** serde json's [Deserializer::new] only fails when the byte iterator yields
    an error; the iterator built in [deserialize_received_data] yields [Ok]
    for every byte. *)
Definition json_deserializer_new (data : bytes) : option bytes := Some data.

(** ** src/ipc.rs *)

Record IpcSender := mkIpcSender { os_sender : OsIpcSender }.
Record IpcReceiver := mkIpcReceiver { os_receiver : OsIpcReceiver }.
Record IpcOneShotServer := mkIpcOneShotServer { os_server : OsIpcOneShotServer }.

(** [deserialize_received_data]: swap the received senders into the
    thread-local, decode, swap back.  The two error arms return from the
    closure before the second swap. *)
Definition deserialize_received_data (t : ty) (data : bytes)
  (os_ipc_senders : list OsIpcSender) (st : tls) : outcome value * tls :=
  let saved := senders_for_deserialization st in
  let st1 := set_de st os_ipc_senders in
  match json_deserializer_new data with
  | None => (Err, st1)
  | Some d =>
      match deserialize t d (senders_for_deserialization st1) with
      | (DErr, c) => (Err, set_de st1 c)
      | (DPanic, c) => (Panic, set_de st1 c)
      | (DOk v _, c) => (Ok v, set_de (set_de st1 c) saved)
      end
  end.

(** [IpcReceiver::recv]; [received] is the result of [os_receiver.recv()]. *)
Definition recv (self : IpcReceiver) (t : ty)
  (received : option (bytes * list OsIpcSender)) (st : tls)
  : outcome value * tls :=
  match received with
  | Some (data, os_ipc_senders) => deserialize_received_data t data os_ipc_senders st
  | None => (Err, st)
  end.

(** [IpcSender::send]; [os_send] is the transport's [OsIpcSender::send]
    (true for Ok).  The third component is the message handed to the
    transport.  The [None] arm is the [unwrap] of a serialization error,
    which would panic; [serialize] never takes it. *)
Definition send (self : IpcSender) (data : value)
  (os_send : OsIpcSender -> bytes -> list OsIpcSender -> bool) (st : tls)
  : outcome unit * tls * option (bytes * list OsIpcSender) :=
  let old_os_ipc_senders := senders_for_serialization st in
  let st1 := set_ser st [] in
  match serialize data (senders_for_serialization st1) with
  | (None, c) => (Panic, set_ser st1 c, None)
  | (Some bytes, c) =>
      let os_ipc_senders := c in
      let st2 := set_ser st1 old_os_ipc_senders in
      ((if os_send (os_sender self) bytes os_ipc_senders then Ok tt else Err),
       st2, Some (bytes, os_ipc_senders))
  end.

(** [IpcOneShotServer::accept]; [accepted] is the result of
    [self.os_server.accept()].  The server is taken by value and not
    returned. *)
Definition accept (self : IpcOneShotServer) (t : ty)
  (accepted : option (OsIpcReceiver * bytes * list OsIpcSender)) (st : tls)
  : outcome (IpcReceiver * value) * tls :=
  match accepted with
  | None => (Err, st)
  | Some (os_receiver, data, os_senders) =>
      match deserialize_received_data t data os_senders st with
      | (Ok value, st') => (Ok (mkIpcReceiver os_receiver, value), st')
      | (Err, st') => (Err, st')
      | (Panic, st') => (Panic, st')
      end
  end.

(** ** Auxiliary notions used in the statements *)

(** The raw senders embedded in a value, in serialization traversal order. *)
Fixpoint senders_of (v : value) : list OsIpcSender :=
  match v with
  | VIpcSender s => [s]
  | VPair a b => senders_of a ++ senders_of b
  | VVec l => flat_map senders_of l
  | _ => []
  end.

Scheme All for Forall.

(** A value inhabits the Rust type [t] (so its [Serialize] succeeds). *)
Inductive has_type : value -> ty -> Prop :=
| HT_U64 n : (n < u64_limit)%N -> has_type (VU64 n) TyU64
| HT_String s : has_type (VString s) TyString
| HT_Vec l t : Forall (fun x => has_type x t) l -> has_type (VVec l) (TyVec t)
| HT_Pair a b ta tb :
    has_type a ta -> has_type b tb -> has_type (VPair a b) (TyPair ta tb)
| HT_IpcSender s : has_type (VIpcSender s) TyIpcSender.

(** The element loops of [serialize] and [deserialize], as top-level
    functions. *)
Fixpoint serialize_elems (l : list value) (ctx : list OsIpcSender)
  : option bytes * list OsIpcSender :=
  match l with
  | [] => (Some [], ctx)
  | x :: xs =>
      match serialize x ctx with
      | (Some bx, c1) =>
          match serialize_elems xs c1 with
          | (Some bxs, c2) => (Some (bx ++ bxs), c2)
          | (None, c2) => (None, c2)
          end
      | (None, c1) => (None, c1)
      end
  end.

Fixpoint deserialize_elems (t : ty) (fuel : nat) (toks : bytes)
  (ctx : list OsIpcSender) : dres (list value) * list OsIpcSender :=
  match fuel with
  | O => (DErr, ctx)
  | S f =>
      match toks with
      | TSeqEnd :: r => (DOk [] r, ctx)
      | _ =>
          dbind (deserialize t toks ctx) (fun x r c =>
          dbind (deserialize_elems t f r c) (fun xs r' c' => (DOk (x :: xs) r', c')))
      end
  end.

(** ** Unfolding and framing lemmas *)

Ltac app_norm := repeat first [ rewrite <- app_assoc | progress simpl app ].
Ltac app_norm_in H := repeat first [ rewrite <- app_assoc in H | progress simpl app in H ].

Lemma serialize_vec (l : list value) (ctx : list OsIpcSender) :
  serialize (VVec l) ctx =
  match serialize_elems l ctx with
  | (Some b, c) => (Some (TSeqBegin :: b ++ [TSeqEnd]), c)
  | (None, c) => (None, c)
  end.
Proof.
  simpl.
  match goal with
  | |- context [?F l ctx] =>
      lazymatch F with serialize_elems => fail | _ => idtac end;
      assert (E : forall c, F l c = serialize_elems l c)
  end.
  { induction l as [|x xs IH]; intro c; simpl; [reflexivity|].
    destruct (serialize x c) as [[bx|] c1]; [|reflexivity].
    rewrite IH. reflexivity. }
  rewrite E. reflexivity.
Qed.

Lemma deserialize_vec (t : ty) (toks : bytes) (ctx : list OsIpcSender) :
  deserialize (TyVec t) toks ctx =
  match toks with
  | TSeqBegin :: r =>
      dbind (deserialize_elems t (List.length r) r ctx)
        (fun xs r' c' => (DOk (VVec xs) r', c'))
  | _ => (DErr, ctx)
  end.
Proof.
  simpl. destruct toks as [|tok r]; [reflexivity|].
  destruct tok; try reflexivity.
  match goal with
  | |- context [?F (List.length r) r ctx] =>
      lazymatch F with deserialize_elems _ => fail | _ => idtac end;
      assert (E : forall fuel q c, F fuel q c = deserialize_elems t fuel q c)
  end.
  { intro fuel; induction fuel as [|f IH]; intros q c; simpl; [reflexivity|].
    destruct q as [|tok q]; [|destruct tok];
      try reflexivity;
      (destruct (deserialize t _ c) as [[x q'| |] c']; simpl; [rewrite IH|..]; reflexivity). }
  rewrite E. reflexivity.
Qed.

Lemma os_clone_endpoint (s : OsIpcSender) : endpoint (os_clone s) = endpoint s.
Proof. reflexivity. Qed.

Lemma os_clone_twice (s : OsIpcSender) : os_clone (os_clone s) = s.
Proof. destruct s; reflexivity. Qed.

Lemma dbind_DOk {A B : Type} (a : A) (r : bytes) (c : list OsIpcSender)
  (k : A -> bytes -> list OsIpcSender -> dres B * list OsIpcSender) :
  dbind (DOk a r, c) k = k a r c.
Proof. reflexivity. Qed.

(** Serializing a well-typed value threads the context by appending clones
    of its senders in traversal order, and decoding the tokens against any
    handle sequence that has those clones at the same positions gives the
    value back, leaving the sequence as it was. *)
Lemma serialize_deserialize_gen (v : value) :
  forall t ctx0 suf,
  has_type v t ->
  (N.of_nat (List.length (ctx0 ++ map os_clone (senders_of v) ++ suf)) < u64_limit)%N ->
  exists tok toks,
    serialize v ctx0 = (Some (tok :: toks), ctx0 ++ map os_clone (senders_of v)) /\
    tok <> TSeqEnd /\
    forall rest,
      deserialize t ((tok :: toks) ++ rest) (ctx0 ++ map os_clone (senders_of v) ++ suf)
      = (DOk v rest, ctx0 ++ map os_clone (senders_of v) ++ suf).
Proof.
  induction v as [n|str|l IHl|a IHa b IHb|s] using value_ind;
    intros t ctx0 suf Ht Hb; inversion Ht; subst; simpl senders_of in *.
  - (* u64 *)
    exists (TNum n), []. rewrite !app_nil_r. split; [reflexivity|split; [discriminate|]].
    intro rest. simpl. unfold u64_deserialize.
    replace (n <? u64_limit)%N with true by (symmetry; apply N.ltb_lt; assumption).
    reflexivity.
  - (* String *)
    exists (TStr str), []. rewrite !app_nil_r. split; [reflexivity|split; [discriminate|]].
    reflexivity.
  - (* Vec *)
    rename t0 into t'.
    assert (Hel : forall ctx0 suf,
      (N.of_nat (List.length (ctx0 ++ map os_clone (flat_map senders_of l) ++ suf)) < u64_limit)%N ->
      exists toks,
        serialize_elems l ctx0 = (Some toks, ctx0 ++ map os_clone (flat_map senders_of l)) /\
        forall rest fuel,
          List.length (toks ++ TSeqEnd :: rest) <= fuel ->
          deserialize_elems t' fuel (toks ++ TSeqEnd :: rest)
            (ctx0 ++ map os_clone (flat_map senders_of l) ++ suf)
          = (DOk l rest, ctx0 ++ map os_clone (flat_map senders_of l) ++ suf)).
    { match goal with H : Forall _ l |- _ => rename H into Hall end.
      clear Ht Hb ctx0 suf. revert IHl Hall.
      induction l as [|x xs IHxs]; intros IHl Hall ctx0 suf Hb'.
      - exists []. simpl. rewrite app_nil_r. split; [reflexivity|].
        intros rest [|f] Hf; simpl in Hf; [lia|reflexivity].
      - inversion IHl as [|? IHx ? IHl']; subst. inversion Hall as [|? ? Hx Hxs]; subst.
        simpl flat_map in *. rewrite map_app in *.
        destruct (IHx t' ctx0 (map os_clone (flat_map senders_of xs) ++ suf) Hx)
          as [tok [toksx [Sx [Ntok Dx]]]].
        { rewrite <- app_assoc in Hb'. exact Hb'. }
        destruct (IHxs IHl' Hxs (ctx0 ++ map os_clone (senders_of x)) suf)
          as [toksxs [Sxs Dxs]].
        { rewrite <- !app_assoc. rewrite <- app_assoc in Hb'. exact Hb'. }
        exists ((tok :: toksx) ++ toksxs). simpl serialize_elems.
        rewrite Sx, Sxs, <- app_assoc. split; [reflexivity|].
        intros rest [|f] Hf; [simpl in Hf; lia|].
        rewrite <- !app_assoc.
        replace ((tok :: toksx) ++ toksxs ++ TSeqEnd :: rest)
          with (tok :: (toksx ++ toksxs ++ TSeqEnd :: rest)) by reflexivity.
        assert (Step : deserialize_elems t' (S f) (tok :: (toksx ++ toksxs ++ TSeqEnd :: rest))
                  (ctx0 ++ map os_clone (senders_of x) ++ map os_clone (flat_map senders_of xs) ++ suf)
                = dbind (deserialize t' (tok :: (toksx ++ toksxs ++ TSeqEnd :: rest))
                  (ctx0 ++ map os_clone (senders_of x) ++ map os_clone (flat_map senders_of xs) ++ suf))
                  (fun x r c => dbind (deserialize_elems t' f r c)
                     (fun xs r' c' => (DOk (x :: xs) r', c')))).
        { destruct tok; [reflexivity|reflexivity|reflexivity|congruence]. }
        rewrite Step.
        specialize (Dx (toksxs ++ TSeqEnd :: rest)). simpl app in Dx.
        rewrite Dx, dbind_DOk.
        rewrite app_assoc.
        rewrite Dxs.
        + reflexivity.
        + rewrite !length_app in Hf. simpl in Hf. rewrite length_app. simpl. lia. }
    destruct (Hel ctx0 suf Hb) as [toks [Sl Dl]].
    exists TSeqBegin, (toks ++ [TSeqEnd]).
    rewrite serialize_vec, Sl. split; [reflexivity|split; [discriminate|]].
    intro rest. rewrite deserialize_vec. simpl app. rewrite <- app_assoc. simpl app.
    rewrite Dl by lia. reflexivity.
  - (* pair *)
    match goal with Ha : has_type a _, Hbt : has_type b _ |- _ =>
      rename Ha into Hta; rename Hbt into Htb end.
    rewrite map_app in *.
    destruct (IHa ta ctx0 (map os_clone (senders_of b) ++ suf) Hta)
      as [toka [toksa [Sa [Na Da]]]].
    { rewrite <- app_assoc in Hb. exact Hb. }
    destruct (IHb tb (ctx0 ++ map os_clone (senders_of a)) suf Htb)
      as [tokb [toksb [Sb [Nb Db]]]].
    { rewrite <- !app_assoc. rewrite <- app_assoc in Hb. exact Hb. }
    exists TSeqBegin, ((toka :: toksa) ++ (tokb :: toksb) ++ [TSeqEnd]).
    simpl serialize. rewrite Sa, Sb, <- app_assoc. split; [reflexivity|split; [discriminate|]].
    intro rest. rewrite <- !app_assoc. simpl deserialize.
    specialize (Da ((tokb :: toksb) ++ [TSeqEnd] ++ rest)).
    app_norm_in Da. app_norm.
    rewrite Da, dbind_DOk.
    specialize (Db (TSeqEnd :: rest)).
    app_norm_in Db. app_norm.
    rewrite Db, dbind_DOk. reflexivity.
  - (* IpcSender *)
    exists (TNum (N.of_nat (List.length ctx0))), []. simpl. split; [reflexivity|].
    split; [discriminate|]. intro rest.
    unfold ipc_sender_deserialize, u64_deserialize.
    rewrite length_app in Hb. simpl in Hb.
    replace (N.of_nat (List.length ctx0) <? u64_limit)%N with true
      by (symmetry; apply N.ltb_lt; lia).
    rewrite Nat2N.id, nth_error_app2 by lia. rewrite PeanoNat.Nat.sub_diag. simpl.
    rewrite os_clone_twice. reflexivity.
Qed.

(** Decoding only reads the handle sequence. *)
Lemma deserialize_frame (t : ty) :
  forall toks ctx, snd (deserialize t toks ctx) = ctx.
Proof.
  induction t as [| |t IHt|a IHa b IHb|]; intros toks ctx.
  - simpl. destruct (u64_deserialize toks) as [[n r]|]; reflexivity.
  - simpl. destruct toks as [|[] r]; reflexivity.
  - rewrite deserialize_vec.
    assert (El : forall fuel q c, snd (deserialize_elems t fuel q c) = c).
    { intro fuel; induction fuel as [|f IHf]; intros q c; [reflexivity|].
      simpl. destruct q as [|tok q]; [|destruct tok]; try reflexivity;
        match goal with |- context [deserialize t ?qq ?cc] =>
          pose proof (IHt qq cc) as Ht;
          destruct (deserialize t qq cc) as [[x r| |] c'] end;
        simpl in *; subst; try reflexivity;
        match goal with |- context [deserialize_elems t f ?rr ?cc] =>
          pose proof (IHf rr cc) as Hf;
          destruct (deserialize_elems t f rr cc) as [[xs r'| |] c''] end;
        simpl in *; subst; reflexivity. }
    destruct toks as [|[] r]; try reflexivity.
    simpl. pose proof (El (List.length r) r ctx) as H.
    destruct (deserialize_elems t (List.length r) r ctx) as [[xs r'| |] c'];
      exact H.
  - simpl. destruct toks as [|[] r]; try reflexivity.
    pose proof (IHa r ctx) as Ha.
    destruct (deserialize a r ctx) as [[va r1| |] c1]; simpl in *; try exact Ha.
    subst c1. pose proof (IHb r1 ctx) as Hb.
    destruct (deserialize b r1 ctx) as [[vb r2| |] c2]; simpl in *; try exact Hb.
    destruct r2 as [|[] r3]; exact Hb.
  - simpl. unfold ipc_sender_deserialize.
    destruct (u64_deserialize toks) as [[i r]|]; [|reflexivity].
    destruct (nth_error ctx (N.to_nat i)); reflexivity.
Qed.

(** Serializing a well-typed value appends clones of its senders, in
    traversal order, to the context. *)
Lemma serialize_senders (v : value) :
  forall t ctx, has_type v t ->
  exists toks, serialize v ctx = (Some toks, ctx ++ map os_clone (senders_of v)).
Proof.
  induction v as [n|str|l IHl|a IHa b IHb|s] using value_ind;
    intros t ctx Ht; inversion Ht; subst; simpl senders_of.
  - eexists. simpl. rewrite app_nil_r. reflexivity.
  - eexists. simpl. rewrite app_nil_r. reflexivity.
  - match goal with H : Forall _ l |- _ => rename H into Hall end.
    rewrite serialize_vec.
    enough (E : exists toks, serialize_elems l ctx
                   = (Some toks, ctx ++ map os_clone (flat_map senders_of l)))
      by (destruct E as [toks E]; rewrite E; eexists; reflexivity).
    clear Ht. revert IHl Hall ctx.
    induction l as [|x xs IHxs]; intros IHl Hall ctx.
    + exists []. simpl. rewrite app_nil_r. reflexivity.
    + inversion IHl as [|? IHx ? IHl']; subst.
      inversion Hall as [|? ? Hx Hxs]; subst.
      destruct (IHx _ ctx Hx) as [bx Ex].
      destruct (IHxs IHl' Hxs (ctx ++ map os_clone (senders_of x))) as [bxs Exs].
      exists (bx ++ bxs). simpl. rewrite Ex, Exs, map_app, app_assoc. reflexivity.
  - match goal with Ha : has_type a _, Hbt : has_type b _ |- _ =>
      destruct (IHa _ ctx Ha) as [ba Ea];
      destruct (IHb _ (ctx ++ map os_clone (senders_of a)) Hbt) as [bb Eb] end.
    eexists. simpl. rewrite Ea, Eb, map_app, <- app_assoc. reflexivity.
  - eexists. reflexivity.
Qed.

(** [deserialize_received_data] by the outcome of decoding: on success the
    thread-local is as before the call, on either failure it holds the
    delivered handles. *)
Lemma deserialize_received_data_cases (t : ty) (data : bytes)
  (hs : list OsIpcSender) (st : tls) :
  deserialize_received_data t data hs st =
  match fst (deserialize t data hs) with
  | DOk v _ => (Ok v, st)
  | DErr => (Err, set_de st hs)
  | DPanic => (Panic, set_de st hs)
  end.
Proof.
  unfold deserialize_received_data. simpl.
  pose proof (deserialize_frame t data hs) as F.
  destruct (deserialize t data hs) as [[v r| |] c]; simpl in *; subst;
    destruct st; reflexivity.
Qed.


End Ipc.

Module Claims.
Import Ipc.

(** Fixed handles and thread-local states for concrete runs. *)
Definition h0 : OsIpcSender := mkOsIpcSender 0.
Definition h1 : OsIpcSender := mkOsIpcSender 1.
Definition h2 : OsIpcSender := mkOsIpcSender 2.
Definition rx0 : IpcReceiver := mkIpcReceiver (mkOsIpcReceiver 0).
Definition tx0 : IpcSender := mkIpcSender h0.
Definition srv0 : IpcOneShotServer := mkIpcOneShotServer (mkOsIpcOneShotServer 0).
Definition st_empty : tls := mkTls [] [].
Definition transport_ok (_ : OsIpcSender) (_ : bytes) (_ : list OsIpcSender) : bool := true.

(** C1 (code_bug): a payload whose index is not below the length of the
    delivered handle sequence makes [recv] and [accept] panic (the unchecked
    [Vec] index in [IpcSender::deserialize]) instead of returning an error. *)
Theorem recv_out_of_range_index_panics (i : N) (hs : list OsIpcSender) (st : tls)
  (Hi : (i < u64_limit)%N) (Hlen : List.length hs <= N.to_nat i) :
  fst (recv rx0 TyIpcSender (Some ([TNum i], hs)) st) = Panic /\
  (forall srv rx, fst (accept srv TyIpcSender (Some (rx, [TNum i], hs)) st) = Panic).
Proof.
  assert (E : deserialize_received_data TyIpcSender [TNum i] hs st
              = (Panic, set_de (set_de st hs) hs)).
  { unfold deserialize_received_data. simpl.
    unfold ipc_sender_deserialize, u64_deserialize.
    replace (i <? u64_limit)%N with true by (symmetry; apply N.ltb_lt; exact Hi).
    rewrite (proj2 (nth_error_None hs (N.to_nat i)) Hlen). reflexivity. }
  split.
  - simpl. rewrite E. reflexivity.
  - intros srv rx. simpl. rewrite E. reflexivity.
Qed.

Lemma recv_out_of_range_index_panics_witness :
  fst (recv rx0 TyIpcSender (Some ([TNum 0], [])) st_empty) = Panic /\
  fst (accept srv0 TyIpcSender (Some (mkOsIpcReceiver 1, [TNum 0], [])) st_empty) = Panic.
Proof.
  destruct (recv_out_of_range_index_panics 0 [] st_empty) as [A B];
    [vm_compute; reflexivity | simpl; lia |].
  split; [exact A | apply B].
Defined.

(** C2 (code_bug): when decoding fails, [deserialize_received_data] returns
    before swapping back, so the deserialization thread-local keeps the
    delivered handles instead of its prior contents. *)
Theorem recv_decode_error_keeps_received_handles (t : ty) (data : bytes)
  (hs : list OsIpcSender) (st : tls)
  (Hdec : fst (deserialize t data hs) = DErr) :
  recv rx0 t (Some (data, hs)) st = (Err, set_de st hs).
Proof.
  simpl. unfold deserialize_received_data. simpl.
  pose proof (deserialize_frame t data hs) as F.
  destruct (deserialize t data hs) as [r c]. simpl in Hdec, F. subst.
  destruct st. reflexivity.
Qed.

Lemma recv_decode_error_keeps_received_handles_witness :
  fst (deserialize TyU64 [TStr "x"] [h1]) = DErr /\
  recv rx0 TyU64 (Some ([TStr "x"], [h1])) st_empty = (Err, mkTls [h1] []).
Proof.
  split; [reflexivity|].
  apply (recv_decode_error_keeps_received_handles TyU64 [TStr "x"] [h1] st_empty).
  reflexivity.
Defined.

(** C4: for a plain value of a supported type, [send] hands the transport
    its tokens with an empty handle sequence, and [recv] of that message
    returns the value itself. *)
Theorem send_recv_roundtrip_plain (self : IpcSender) (rx : IpcReceiver) (t : ty)
  (v : value) (os_send : OsIpcSender -> bytes -> list OsIpcSender -> bool)
  (st st' : tls) (Ht : has_type v t) (Hplain : senders_of v = []) :
  exists data,
    send self v os_send st
      = ((if os_send (os_sender self) data [] then Ok tt else Err), st, Some (data, [])) /\
    recv rx t (Some (data, [])) st' = (Ok v, st').
Proof.
  destruct (serialize_deserialize_gen v t [] [] Ht) as [tok [toks [S [_ D]]]].
  { rewrite Hplain. simpl. unfold u64_limit. lia. }
  rewrite Hplain in S, D. simpl in S, D.
  exists (tok :: toks). split.
  - unfold send. simpl. rewrite S. destruct st. reflexivity.
  - unfold recv, deserialize_received_data. simpl.
    specialize (D []). rewrite app_nil_r in D. rewrite D.
    destruct st'. reflexivity.
Qed.

Lemma send_recv_roundtrip_plain_witness :
  has_type (VPair (VU64 7) (VVec [VString "a"; VString "b"])) (TyPair TyU64 (TyVec TyString)) /\
  senders_of (VPair (VU64 7) (VVec [VString "a"; VString "b"])) = [] /\
  exists data,
    send tx0 (VPair (VU64 7) (VVec [VString "a"; VString "b"])) transport_ok st_empty
      = (Ok tt, st_empty, Some (data, [])) /\
    recv rx0 (TyPair TyU64 (TyVec TyString)) (Some (data, [])) st_empty
      = (Ok (VPair (VU64 7) (VVec [VString "a"; VString "b"])), st_empty).
Proof.
  assert (Ht : has_type (VPair (VU64 7) (VVec [VString "a"; VString "b"]))
                        (TyPair TyU64 (TyVec TyString))).
  { constructor; constructor.
    - vm_compute. reflexivity.
    - repeat constructor. }
  split; [exact Ht|]. split; [reflexivity|].
  exact (send_recv_roundtrip_plain tx0 rx0 _ _ transport_ok st_empty st_empty Ht eq_refl).
Defined.

(** C5: an embedded sender is written as the length of the serialization
    context at push time, a clone of its handle is appended at that position,
    and over a whole value the context grows by the clones of the embedded
    senders in traversal order. *)
Theorem serialize_sender_index :
  (forall s ctx,
     serialize (VIpcSender s) ctx
     = (Some [TNum (N.of_nat (List.length ctx))], ctx ++ [os_clone s])) /\
  (forall v t ctx, has_type v t ->
     exists toks, serialize v ctx = (Some toks, ctx ++ map os_clone (senders_of v))).
Proof.
  split.
  - intros s ctx. reflexivity.
  - intros v t ctx Ht. exact (serialize_senders v t ctx Ht).
Qed.

(** C6: encoding a value from a fresh context assigns indices 0..k-1 to its
    k embedded senders in traversal order; decoding against the delivered
    sequence resolves index i to (a clone of) the i-th sender, and decodes
    the whole message to the original value. *)
Theorem embedded_senders_resolve_by_index (v : value) (t : ty)
  (Ht : has_type v t)
  (Hbound : (N.of_nat (List.length (senders_of v)) < u64_limit)%N) :
  exists toks,
    serialize v [] = (Some toks, map os_clone (senders_of v)) /\
    (forall i s, nth_error (senders_of v) i = Some s ->
       deserialize TyIpcSender [TNum (N.of_nat i)] (map os_clone (senders_of v))
       = (DOk (VIpcSender s) [], map os_clone (senders_of v))) /\
    deserialize t toks (map os_clone (senders_of v))
      = (DOk v [], map os_clone (senders_of v)).
Proof.
  destruct (serialize_deserialize_gen v t [] [] Ht) as [tok [toks [S [_ D]]]].
  { rewrite app_nil_r. simpl. rewrite length_map. exact Hbound. }
  simpl in S, D. rewrite app_nil_r in D.
  exists (tok :: toks). split; [exact S|]. split.
  - intros i s Hi. simpl. unfold ipc_sender_deserialize, u64_deserialize.
    assert (Hlt : i < List.length (senders_of v))
      by (apply nth_error_Some; congruence).
    replace (N.of_nat i <? u64_limit)%N with true
      by (symmetry; apply N.ltb_lt; lia).
    rewrite Nat2N.id, nth_error_map, Hi. simpl. rewrite os_clone_twice.
    reflexivity.
  - specialize (D []). rewrite app_nil_r in D. exact D.
Qed.

Lemma embedded_senders_resolve_by_index_witness :
  has_type (VPair (VVec [VU64 3; VU64 4]) (VPair (VIpcSender h1) (VIpcSender h2)))
           (TyPair (TyVec TyU64) (TyPair TyIpcSender TyIpcSender)) /\
  serialize (VPair (VVec [VU64 3; VU64 4]) (VPair (VIpcSender h1) (VIpcSender h2))) []
    = (Some [TSeqBegin; TSeqBegin; TNum 3; TNum 4; TSeqEnd;
             TSeqBegin; TNum 0; TNum 1; TSeqEnd; TSeqEnd], [h1; h2]) /\
  deserialize TyIpcSender [TNum 1] [h1; h2] = (DOk (VIpcSender h2) [], [h1; h2]).
Proof.
  assert (Ht : has_type (VPair (VVec [VU64 3; VU64 4]) (VPair (VIpcSender h1) (VIpcSender h2)))
           (TyPair (TyVec TyU64) (TyPair TyIpcSender TyIpcSender))).
  { repeat constructor; vm_compute; reflexivity. }
  destruct (embedded_senders_resolve_by_index _ _ Ht) as [toks [S [R _]]].
  { vm_compute. reflexivity. }
  split; [exact Ht|]. split; [reflexivity|].
  exact (R 1 h2 eq_refl).
Defined.

(** C7: [send] serializes from an empty context whatever the thread-local
    held before, hands exactly the handles pushed during this call to the
    transport, and leaves the thread-local as it found it. *)
Theorem send_fresh_context_restored (self : IpcSender) (v : value)
  (os_send : OsIpcSender -> bytes -> list OsIpcSender -> bool) (st : tls)
  (toks : bytes) (hs : list OsIpcSender)
  (Hser : serialize v [] = (Some toks, hs)) :
  send self v os_send st
  = ((if os_send (os_sender self) toks hs then Ok tt else Err), st, Some (toks, hs)).
Proof.
  unfold send. simpl. rewrite Hser. destruct st. reflexivity.
Qed.

Lemma send_fresh_context_restored_witness :
  serialize (VIpcSender h1) [] = (Some [TNum 0], [h1]) /\
  send tx0 (VIpcSender h1) transport_ok (mkTls [] [h2; h2])
  = (Ok tt, mkTls [] [h2; h2], Some ([TNum 0], [h1])).
Proof.
  split; [reflexivity|].
  apply (send_fresh_context_restored tx0 (VIpcSender h1) transport_ok (mkTls [] [h2; h2])).
  reflexivity.
Defined.

(** C8 (counterexample): a disconnected peer and a malformed payload make
    [recv] return the same [Err(())]. *)
Lemma recv_errors_indistinguishable :
  fst (recv rx0 TyU64 None st_empty) = Err /\
  fst (recv rx0 TyU64 (Some ([TStr "x"], [])) st_empty) = Err /\
  fst (recv rx0 TyU64 None st_empty) = fst (recv rx0 TyU64 (Some ([TStr "x"], [])) st_empty).
Proof. repeat split; reflexivity. Qed.

(** C8 (amended): [recv] returns the single error value [Err(())] both when
    the transport receive fails and when the payload does not decode. *)
Theorem recv_failures_same_error (rx : IpcReceiver) (t : ty) (data : bytes)
  (hs : list OsIpcSender) (st : tls)
  (Hdec : fst (deserialize t data hs) = DErr) :
  fst (recv rx t None st) = Err /\ fst (recv rx t (Some (data, hs)) st) = Err.
Proof.
  split; [reflexivity|].
  simpl. unfold deserialize_received_data. simpl.
  destruct (deserialize t data hs) as [r c]. simpl in Hdec. subst. reflexivity.
Qed.

Lemma recv_failures_same_error_witness :
  fst (deserialize TyString [TNum 1] []) = DErr /\
  fst (recv rx0 TyString None st_empty) = Err /\
  fst (recv rx0 TyString (Some ([TNum 1], [])) st_empty) = Err.
Proof.
  split; [reflexivity|].
  apply (recv_failures_same_error rx0 TyString [TNum 1] [] st_empty).
  reflexivity.
Defined.

(** C9: [accept] takes the server by value, fails if the transport accept
    fails, and otherwise decodes the first message exactly as [recv] does on
    it, returning a receiver on the accepted connection with the value. *)
Theorem accept_decodes_like_recv (srv : IpcOneShotServer) (rx : IpcReceiver)
  (t : ty) (st : tls) :
  accept srv t None st = (Err, st) /\
  forall os_receiver data hs,
    accept srv t (Some (os_receiver, data, hs)) st
    = match recv rx t (Some (data, hs)) st with
      | (Ok v, st') => (Ok (mkIpcReceiver os_receiver, v), st')
      | (Err, st') => (Err, st')
      | (Panic, st') => (Panic, st')
      end.
Proof.
  split; [reflexivity|].
  intros os_receiver data hs. reflexivity.
Qed.

End Claims.

Module Extras.
Import Ipc.

Definition e_h1 : OsIpcSender := mkOsIpcSender 1.
Definition e_h2 : OsIpcSender := mkOsIpcSender 2.
Definition e_rx : IpcReceiver := mkIpcReceiver (mkOsIpcReceiver 0).
Definition e_tx : IpcSender := mkIpcSender (mkOsIpcSender 0).
Definition e_st : tls := mkTls [] [].
Definition e_send_ok (_ : OsIpcSender) (_ : bytes) (_ : list OsIpcSender) : bool := true.

(** Capability transfer through [send] and [recv]: the transport receives
    clones of the embedded senders in traversal order, and [recv] of that
    message rebuilds the value with senders on the same endpoints, leaving
    the thread-local as it was. *)
Theorem send_recv_roundtrip_with_senders (self : IpcSender) (rx : IpcReceiver)
  (t : ty) (v : value) (os_send : OsIpcSender -> bytes -> list OsIpcSender -> bool)
  (st st' : tls) (Ht : has_type v t)
  (Hbound : (N.of_nat (List.length (senders_of v)) < u64_limit)%N) :
  exists data,
    send self v os_send st
      = ((if os_send (os_sender self) data (map os_clone (senders_of v))
          then Ok tt else Err),
         st, Some (data, map os_clone (senders_of v))) /\
    recv rx t (Some (data, map os_clone (senders_of v))) st' = (Ok v, st').
Proof.
  destruct (serialize_deserialize_gen v t [] [] Ht) as [tok [toks [S [_ D]]]].
  { rewrite app_nil_r. simpl. rewrite length_map. exact Hbound. }
  simpl in S, D. rewrite app_nil_r in D.
  exists (tok :: toks). split.
  - unfold send. simpl. rewrite S. destruct st. reflexivity.
  - simpl. rewrite deserialize_received_data_cases.
    specialize (D []). rewrite app_nil_r in D. rewrite D. reflexivity.
Qed.

Lemma send_recv_roundtrip_with_senders_witness :
  has_type (VPair (VIpcSender e_h1) (VVec [VIpcSender e_h2; VIpcSender e_h1]))
           (TyPair TyIpcSender (TyVec TyIpcSender)) /\
  exists data,
    send e_tx (VPair (VIpcSender e_h1) (VVec [VIpcSender e_h2; VIpcSender e_h1]))
         e_send_ok e_st
      = (Ok tt, e_st, Some (data, [e_h1; e_h2; e_h1])) /\
    recv e_rx (TyPair TyIpcSender (TyVec TyIpcSender))
         (Some (data, [e_h1; e_h2; e_h1])) e_st
      = (Ok (VPair (VIpcSender e_h1) (VVec [VIpcSender e_h2; VIpcSender e_h1])), e_st).
Proof.
  assert (Ht : has_type (VPair (VIpcSender e_h1) (VVec [VIpcSender e_h2; VIpcSender e_h1]))
           (TyPair TyIpcSender (TyVec TyIpcSender))) by (repeat constructor).
  split; [exact Ht|].
  exact (send_recv_roundtrip_with_senders e_tx e_rx _ _ e_send_ok e_st e_st Ht
           ltac:(vm_compute; reflexivity)).
Defined.

(** A [recv] whose payload fails to decode leaves its handles in the
    deserialization thread-local, and a later successful [recv] restores the
    thread-local to those stale handles rather than to the state before the
    failure. *)
Theorem failed_recv_leaves_stale_handles (rx : IpcReceiver) (t1 t2 : ty)
  (d1 d2 : bytes) (hs1 hs2 : list OsIpcSender) (st : tls)
  (Hfail : fst (deserialize t1 d1 hs1) = DErr)
  (Hok : exists v r, fst (deserialize t2 d2 hs2) = DOk v r) :
  snd (recv rx t2 (Some (d2, hs2)) (snd (recv rx t1 (Some (d1, hs1)) st)))
  = set_de st hs1.
Proof.
  destruct Hok as [v [r Hok]].
  simpl. rewrite (deserialize_received_data_cases t1), Hfail. simpl.
  rewrite deserialize_received_data_cases, Hok. reflexivity.
Qed.

Lemma failed_recv_leaves_stale_handles_witness :
  fst (deserialize TyU64 [TStr "x"] [e_h1]) = DErr /\
  (exists v r, fst (deserialize TyU64 [TNum 5] [e_h2]) = DOk v r) /\
  snd (recv e_rx TyU64 (Some ([TNum 5], [e_h2]))
         (snd (recv e_rx TyU64 (Some ([TStr "x"], [e_h1])) e_st)))
  = mkTls [e_h1] [].
Proof.
  assert (Hf : fst (deserialize TyU64 [TStr "x"] [e_h1]) = DErr) by reflexivity.
  assert (Ho : exists v r, fst (deserialize TyU64 [TNum 5] [e_h2]) = DOk v r)
    by (exists (VU64 5), []; reflexivity).
  split; [exact Hf|]. split; [exact Ho|].
  exact (failed_recv_leaves_stale_handles e_rx TyU64 TyU64 _ _ _ _ e_st Hf Ho).
Defined.

(** An empty payload is a decode error for every payload type (never a
    panic), and leaves the delivered handles in the thread-local. *)
Theorem recv_empty_payload_err (rx : IpcReceiver) (t : ty)
  (hs : list OsIpcSender) (st : tls) :
  recv rx t (Some ([], hs)) st = (Err, set_de st hs).
Proof.
  simpl. rewrite deserialize_received_data_cases.
  destruct t; reflexivity.
Qed.

(** [deserialize_received_data] does not require the payload to be consumed:
    tokens after an encoded value are ignored by [recv]. *)
Theorem recv_ignores_trailing_tokens (rx : IpcReceiver) (t : ty) (v : value)
  (Ht : has_type v t)
  (Hbound : (N.of_nat (List.length (senders_of v)) < u64_limit)%N) :
  exists data,
    serialize v [] = (Some data, map os_clone (senders_of v)) /\
    forall extra st,
      recv rx t (Some (data ++ extra, map os_clone (senders_of v))) st = (Ok v, st).
Proof.
  destruct (serialize_deserialize_gen v t [] [] Ht) as [tok [toks [S [_ D]]]].
  { rewrite app_nil_r. simpl. rewrite length_map. exact Hbound. }
  simpl in S, D. rewrite app_nil_r in D.
  exists (tok :: toks). split; [exact S|].
  intros extra st. simpl. rewrite deserialize_received_data_cases.
  rewrite D. reflexivity.
Qed.

Lemma recv_ignores_trailing_tokens_witness :
  has_type (VU64 3) TyU64 /\
  recv e_rx TyU64 (Some ([TNum 3; TStr "junk"; TSeqEnd], [])) e_st = (Ok (VU64 3), e_st).
Proof.
  assert (Ht : has_type (VU64 3) TyU64) by (constructor; vm_compute; reflexivity).
  split; [exact Ht|].
  destruct (recv_ignores_trailing_tokens e_rx TyU64 (VU64 3) Ht) as [data [S R]].
  { vm_compute. reflexivity. }
  simpl in S. injection S as <-.
  exact (R [TStr "junk"; TSeqEnd] e_st).
Defined.
End Extras.
